(** * scroll-top.js: the scroll-to-top control of tawala

    A shallow embedding of [src/tawala/static/tawala/js/scroll-top.js] and of
    the small part of the browser it talks to: the element list of the
    document, [window.scrollY], the listener lists of [window], [document]
    and of every element, and the event object handed to a listener.

    The script is run in a monad that threads the page state, may complete
    abruptly with a JavaScript exception, and records every host API call
    the script makes, in program order. *)

From Stdlib Require Import QArith.
From stdpp Require Import base decidable option list strings.


(** ** The page as the script sees it *)

(** An element handle is the position of the element in the document's
    element list (tree order). *)
Abbreviation handle := nat (only parsing).

(** The two functions the script hands to [addEventListener]. *)
Inductive Callback :=
  | ToggleScrollTop   (* function toggleScrollTop() {...}, lines 3-9 *)
  | OnClick.          (* the arrow function (e) => {...}, lines 10-16 *)

#[global] Instance Callback_eq_dec : EqDecision Callback.
Proof. solve_decision. Defined.

Inductive Target :=
  | TWindow
  | TDocument
  | TElement (h : handle).

#[global] Instance Target_eq_dec : EqDecision Target.
Proof. solve_decision. Defined.

(** An element: its [id] attribute, the token list behind [classList]
    (a DOMTokenList, in order) and its event listeners, in registration
    order. *)
Record Element := mkElement {
  el_id : string;
  classList : list string;
  el_listeners : list (string * Callback)
}.

(** The event object [e]. [preventDefault()] sets the canceled flag, which
    [defaultPrevented] reads, only on a cancelable event. *)
Record Event := mkEvent {
  ev_type : string;
  cancelable : bool;
  defaultPrevented : bool
}.

(** Host API calls, as they appear in the script. *)
Inductive Command :=
  | GetElementById (id : string)
  | GetScrollY
  | ClassListAdd (h : handle) (tok : string)
  | ClassListRemove (h : handle) (tok : string)
  | AddEventListener (t : Target) (type : string) (cb : Callback)
  | PreventDefault
  | ScrollTo (top : Q) (behavior : string).

(** The state: the script's one binding, [const scrollTop] ([None] is
    JavaScript's [null]), and the page. The scroll offset is a rational:
    [window.scrollY] is a finite double, every finite double is a rational,
    and the two orders agree on them; fractional offsets occur. *)
Record State := mkState {
  scrollTop : option handle;
  elements : list Element;
  scrollY : Q;
  win_listeners : list (string * Callback);
  doc_listeners : list (string * Callback)
}.

(** ** The monad: state, exceptions, and the trace of host calls *)

Inductive Exn := TypeError.

Inductive Completion (A : Type) :=
  | Normal (a : A)
  | Throw (e : Exn).
Arguments Normal {A} a.
Arguments Throw {A} e.

Definition M (A : Type) : Type := State -> Completion A * State * list Command.

#[global] Instance M_ret : MRet M := fun A a st => (Normal a, st, []).

#[global] Instance M_bind : MBind M := fun A B f m st =>
  match m st with
  | (Normal a, st1, t1) =>
      match f a st1 with
      | (r, st2, t2) => (r, st2, t1 ++ t2)
      end
  | (Throw e, st1, t1) => (Throw e, st1, t1)
  end.

Definition throw {A} (e : Exn) : M A := fun st => (Throw e, st, []).

(** Projections of a run. *)
Definition completion {A} (r : Completion A * State * list Command) := r.1.1.
Definition final {A} (r : Completion A * State * list Command) := r.1.2.
Definition trace {A} (r : Completion A * State * list Command) := r.2.

(** ** Host operations *)

(** [document.getElementById(id)]: the first element in tree order whose id
    is [id], or [null]. *)
Definition getElementById (id : string) : M (option handle) := fun st =>
  (Normal (fst <$> list_find (fun e => el_id e = id) (elements st)),
   st, [GetElementById id]).

(** [window.scrollY]. *)
Definition getScrollY : M Q := fun st => (Normal (scrollY st), st, [GetScrollY]).

(** DOMTokenList [add]: append the token unless it is there already. *)
Definition token_add (tok : string) (l : list string) : list string :=
  if decide (tok ∈ l) then l else l ++ [tok].

(** DOMTokenList [remove]: drop the token. *)
Definition token_remove (tok : string) (l : list string) : list string :=
  filter (fun t => t ≠ tok) l.

Definition set_classList (f : list string -> list string) (e : Element) : Element :=
  {| el_id := el_id e; classList := f (classList e); el_listeners := el_listeners e |}.

Definition set_elements (f : list Element -> list Element) (st : State) : State :=
  {| scrollTop := scrollTop st; elements := f (elements st);
     scrollY := scrollY st;
     win_listeners := win_listeners st; doc_listeners := doc_listeners st |}.

(** [h.classList.add(tok)] and [h.classList.remove(tok)]. *)
Definition classList_add (h : handle) (tok : string) : M unit := fun st =>
  (Normal tt, set_elements (alter (set_classList (token_add tok)) h) st,
   [ClassListAdd h tok]).

Definition classList_remove (h : handle) (tok : string) : M unit := fun st =>
  (Normal tt, set_elements (alter (set_classList (token_remove tok)) h) st,
   [ClassListRemove h tok]).

(** [addEventListener(type, cb)]: the listener is appended unless the same
    type and callback are registered on the target already. *)
Definition listener_add (type : string) (cb : Callback)
    (l : list (string * Callback)) : list (string * Callback) :=
  if decide ((type, cb) ∈ l) then l else l ++ [(type, cb)].

Definition set_el_listeners
    (f : list (string * Callback) -> list (string * Callback)) (e : Element) : Element :=
  {| el_id := el_id e; classList := classList e; el_listeners := f (el_listeners e) |}.

Definition register (t : Target) (type : string) (cb : Callback) (st : State) : State :=
  match t with
  | TWindow =>
      {| scrollTop := scrollTop st; elements := elements st; scrollY := scrollY st;
         win_listeners := listener_add type cb (win_listeners st);
         doc_listeners := doc_listeners st |}
  | TDocument =>
      {| scrollTop := scrollTop st; elements := elements st; scrollY := scrollY st;
         win_listeners := win_listeners st;
         doc_listeners := listener_add type cb (doc_listeners st) |}
  | TElement h =>
      set_elements (alter (set_el_listeners (listener_add type cb)) h) st
  end.

Definition addEventListener (t : Target) (type : string) (cb : Callback) : M unit :=
  fun st => (Normal tt, register t type cb st, [AddEventListener t type cb]).

(** [e.preventDefault()]. *)
Definition preventDefault (e : Event) : M Event := fun st =>
  (Normal {| ev_type := ev_type e; cancelable := cancelable e;
             defaultPrevented := cancelable e || defaultPrevented e |},
   st, [PreventDefault]).

(** [window.scrollTo({top, behavior})]. With a smooth behaviour the offset
    does not change during the call: the host animates it afterwards and
    reports the new offsets through scroll events. *)
Definition scrollTo (top : Q) (behavior : string) : M unit := fun st =>
  (Normal tt, st, [ScrollTo top behavior]).

(** ** Language-level steps *)

(** Initialisation of [const scrollTop]. *)
Definition bind_scrollTop (v : option handle) : M unit := fun st =>
  (Normal tt,
   {| scrollTop := v; elements := elements st; scrollY := scrollY st;
      win_listeners := win_listeners st; doc_listeners := doc_listeners st |},
   []).

(** Reading the variable [scrollTop]. *)
Definition read_scrollTop : M (option handle) := fun st =>
  (Normal (scrollTop st), st, []).

(** Member access [v.m]: a TypeError on [null]. *)
Definition member (v : option handle) : M handle :=
  match v with
  | Some h => mret h
  | None => throw TypeError
  end.

(** The comparison [x > y] on numbers. *)
Definition js_gt (x y : Q) : bool := negb (Qle_bool x y).

(** ** The script *)

(** Lines 3-9, the specification's evaluateVisibility.
<<
function toggleScrollTop() {
  if (scrollTop) {
    window.scrollY > 100
      ? scrollTop.classList.add("active")
      : scrollTop.classList.remove("active");
  }
}
>> *)
Definition toggleScrollTop : M unit :=
  v ← read_scrollTop;
  match v with
  | Some h =>
      y ← getScrollY;
      if js_gt y 100
      then classList_add h "active"
      else classList_remove h "active"
  | None => mret tt
  end.

(** Lines 10-16, the click listener, the specification's onActivate.
<<
(e) => {
  e.preventDefault();
  window.scrollTo({ top: 0, behavior: "smooth" });
}
>> *)
Definition onClick (e : Event) : M Event :=
  e' ← preventDefault e;
  scrollTo 0 "smooth";;
  mret e'.

(** The top level of the script, lines 1-19.
<<
const scrollTop = document.getElementById("scroll-top");
scrollTop.addEventListener("click", (e) => {...});
window.addEventListener("load", toggleScrollTop);
document.addEventListener("scroll", toggleScrollTop);
>> *)
Definition script : M unit :=
  r ← getElementById "scroll-top";
  bind_scrollTop r;;
  v ← read_scrollTop;
  h ← member v;
  addEventListener (TElement h) "click" OnClick;;
  addEventListener TWindow "load" ToggleScrollTop;;
  addEventListener TDocument "scroll" ToggleScrollTop.

(** ** The host: loading a page and delivering events *)

(** An element as the page's markup gives it: its id and its class tokens.
    No listener is registered on a freshly parsed element. *)
Record Markup := mkMarkup {
  m_id : string;
  m_class : list string
}.

Definition parse_element (m : Markup) : Element :=
  {| el_id := m_id m; classList := m_class m; el_listeners := [] |}.

(** The state the script starts in: the parsed page at scroll offset [y],
    nothing registered, [scrollTop] not yet initialised. *)
Definition boot (page : list Markup) (y : Q) : State :=
  {| scrollTop := None; elements := parse_element <$> page; scrollY := y;
     win_listeners := []; doc_listeners := [] |}.

(** What the host delivers after the script has run: the load signal, a
    scroll of the viewport to offset [y], a click on element [h] that lies
    inside the elements [ancestors], innermost first (the parent of [h], its
    parent, and so on; no element occurs twice on such a path). *)
Inductive HostEvent :=
  | Load
  | Scroll (y : Q)
  | ClickAt (h : handle) (ancestors : list handle).

(** A click on an element that lies inside no other element. *)
Abbreviation Click h := (ClickAt h []).

Definition event_type (ev : HostEvent) : string :=
  match ev with
  | Load => "load"
  | Scroll _ => "scroll"
  | ClickAt _ _ => "click"
  end.

(** The targets an event visits, in order: load is dispatched at the window,
    scroll at the document and bubbles to the window, click at the element
    and bubbles through its ancestors and the document to the window. *)
Definition event_path (ev : HostEvent) : list Target :=
  match ev with
  | Load => [TWindow]
  | Scroll _ => [TDocument; TWindow]
  | ClickAt h ancestors =>
      TElement h :: (TElement <$> ancestors) ++ [TDocument; TWindow]
  end.

(** The event object of a host event; a click is cancelable. *)
Definition event_object (ev : HostEvent) : Event :=
  {| ev_type := event_type ev;
     cancelable := match ev with ClickAt _ _ => true | _ => false end;
     defaultPrevented := false |}.

Definition listeners_of (t : Target) (st : State) : list (string * Callback) :=
  match t with
  | TWindow => win_listeners st
  | TDocument => doc_listeners st
  | TElement h => default [] (el_listeners <$> elements st !! h)
  end.

(** The callbacks registered for [type] along [path], in invocation order. *)
Definition callbacks_for (type : string) (path : list Target) (st : State)
    : list Callback :=
  path ≫= fun t => snd <$> filter (fun l => l.1 = type) (listeners_of t st).

(** Running one listener on the event object. *)
Definition call (cb : Callback) (e : Event) : M Event :=
  match cb with
  | ToggleScrollTop => toggleScrollTop;; mret e
  | OnClick => onClick e
  end.

(** One invocation: the callback and the host calls it made. *)
Definition Invocation : Type := Callback * list Command.

(** The host invokes the listeners one after the other; an exception thrown
    by a listener is reported and does not stop the others. *)
Fixpoint invoke_all (cbs : list Callback) (e : Event) (st : State)
    : Event * State * list Invocation :=
  match cbs with
  | [] => (e, st, [])
  | cb :: rest =>
      match call cb e st with
      | (Normal e1, st1, t) =>
          match invoke_all rest e1 st1 with
          | (e2, st2, invs) => (e2, st2, (cb, t) :: invs)
          end
      | (Throw _, st1, t) =>
          match invoke_all rest e st1 with
          | (e2, st2, invs) => (e2, st2, (cb, t) :: invs)
          end
      end
  end.

(** The host's own part of an event: a scroll moves the viewport. *)
Definition host_update (ev : HostEvent) (st : State) : State :=
  match ev with
  | Scroll y =>
      {| scrollTop := scrollTop st; elements := elements st; scrollY := y;
         win_listeners := win_listeners st; doc_listeners := doc_listeners st |}
  | _ => st
  end.

Definition dispatch (ev : HostEvent) (st : State) : Event * State * list Invocation :=
  let st0 := host_update ev st in
  invoke_all (callbacks_for (event_type ev) (event_path ev) st0) (event_object ev) st0.

(** A session: the events the host delivers, in order, each with the
    invocations it caused. *)
Fixpoint session (evs : list HostEvent) (st : State)
    : State * list (HostEvent * list Invocation) :=
  match evs with
  | [] => (st, [])
  | ev :: rest =>
      match dispatch ev st with
      | (_, st1, invs) =>
          match session rest st1 with
          | (st2, log) => (st2, (ev, invs) :: log)
          end
      end
  end.

(** The whole life of the component on a page: the script runs once, then
    the host delivers events. *)
Record Run := mkRun {
  script_completion : Completion unit;
  script_trace : list Command;
  end_state : State;
  event_log : list (HostEvent * list Invocation)
}.

Definition run (page : list Markup) (y : Q) (evs : list HostEvent) : Run :=
  match script (boot page y) with
  | (c, st, t) =>
      match session evs st with
      | (st', log) => mkRun c t st' log
      end
  end.

(** How often [cb] was invoked in a session log. *)
Definition invocations (cb : Callback) (log : list (HostEvent * list Invocation)) : nat :=
  length (filter (fun c => c = cb) (log ≫= fun p => fst <$> p.2)).

(** The control as a page carries it. *)
Definition button : Markup := mkMarkup "scroll-top" ["scroll-top"].

(** ** The vocabulary of the properties *)

(** What [toggleScrollTop] does to the class tokens of the control at
    scroll offset [y]. *)
Definition retoken (y : Q) : list string -> list string :=
  if js_gt y 100 then token_add "active" else token_remove "active".

(** Everything about an element except whether it carries "active". *)
Definition but_active (e : Element) : string * list string * list (string * Callback) :=
  (el_id e, filter (fun t => t ≠ "active") (classList e), el_listeners e).

(** The commands that scroll the viewport or register a listener. *)
Definition scrolls_or_registers (c : Command) : bool :=
  match c with
  | ScrollTo _ _ | AddEventListener _ _ _ => true
  | _ => false
  end.

(** The command that suppresses the default behaviour of the event. *)
Definition is_preventDefault (c : Command) : bool :=
  match c with
  | PreventDefault => true
  | _ => false
  end.

(** The lookup of line 1 on a freshly parsed page. *)
Definition find_control (page : list Markup) : option handle :=
  fst <$> list_find (fun e => el_id e = "scroll-top") (parse_element <$> page).

(** The command that resolves an element of the document. *)
Definition is_lookup (c : Command) : bool :=
  match c with
  | GetElementById _ => true
  | _ => false
  end.

(** [stable st st']: from [st] to [st'] the binding [scrollTop], the ids of
    the elements and every listener list are the same. *)
Record stable (st st' : State) : Prop := mkStable {
  stable_scrollTop : scrollTop st' = scrollTop st;
  stable_ids : el_id <$> elements st' = el_id <$> elements st;
  stable_win : win_listeners st' = win_listeners st;
  stable_doc : doc_listeners st' = doc_listeners st;
  stable_els : el_listeners <$> elements st' = el_listeners <$> elements st
}.

(** Invocations that look nothing up. *)
Definition quiet (invs : list Invocation) : Prop :=
  Forall (fun inv : Invocation => Forall (fun c => is_lookup c = false) inv.2) invs.

(** The state of the listeners when the script has run to its end with the
    control at [h]. *)
Record wired (h : handle) (st : State) : Prop := mkWired {
  wired_win : listeners_of TWindow st = [("load", ToggleScrollTop)];
  wired_doc : listeners_of TDocument st = [("scroll", ToggleScrollTop)];
  wired_el : forall i, listeners_of (TElement i) st =
               if decide (i = h) then [("click", OnClick)] else []
}.

(** The state of the listeners when the script stopped at line 10. *)
Definition unwired (st : State) : Prop := forall t, listeners_of t st = [].

(** The callbacks a wired page runs for a host event. *)
Definition wired_callbacks (h : handle) (ev : HostEvent) : list Callback :=
  match ev with
  | Load | Scroll _ => [ToggleScrollTop]
  | ClickAt i ancestors =>
      (i :: ancestors) ≫= fun j => if decide (j = h) then [OnClick] else []
  end.

(** The host events the script registers [toggleScrollTop] for. *)
Definition triggers_toggle (ev : HostEvent) : bool :=
  match ev with
  | Load | Scroll _ => true
  | ClickAt _ _ => false
  end.

(** The class tokens of an element other than "active", in order. *)
Definition other_tokens (l : list string) : list string :=
  filter (fun t => t ≠ "active") l.

(** [retokened st st']: from [st] to [st'] the element list changed at most
    at the element [scrollTop] is bound to, there only in the class tokens,
    and among these only in "active". *)
Definition retokened (st st' : State) : Prop :=
  exists f : list string -> list string,
    (forall l, other_tokens (f l) = other_tokens l) /\
    elements st' =
      match scrollTop st with
      | Some h => alter (set_classList f) h (elements st)
      | None => elements st
      end.

(** [synced h st]: the element at [h] carries "active" exactly when the
    scroll offset of [st] is above 100. *)
Definition synced (h : handle) (st : State) : Prop :=
  exists el : Element,
    elements st !! h = Some el /\
    ("active" ∈ classList el <-> (100 < scrollY st)%Q).

(** The event object a click comes back with once its default behaviour
    is suppressed. *)
Definition prevented_click : Event :=
  {| ev_type := "click"; cancelable := true; defaultPrevented := true |}.

(** The commands that change a class list. *)
Definition changes_classes (c : Command) : bool :=
  match c with
  | ClassListAdd _ _ | ClassListRemove _ _ => true
  | _ => false
  end.

(** How often an event ran [toggleScrollTop]. *)
Definition toggles (invs : list Invocation) : nat :=
  length (filter (fun c => c = ToggleScrollTop) (fst <$> invs)).

(** Whether some invocation of an event issued a [scrollTo]. *)
Definition issues_scroll (invs : list Invocation) : bool :=
  existsb (fun c => match c with ScrollTo _ _ => true | _ => false end)
    (invs ≫= snd).

(** A page with the control as its second element. *)
Definition sample_page : list Markup := [mkMarkup "main" ["container"]; button].

(** The same page with an icon as third element, inside the control. *)
Definition icon_page : list Markup :=
  [mkMarkup "main" ["container"]; button; mkMarkup "" ["bi"; "bi-arrow-up-short"]].

(** Whether a run of a listener returned its event default-prevented, so
    that the host skips the default behaviour of the event. *)
Definition default_suppressed (r : Completion Event * State * list Command) : bool :=
  match completion r with
  | Normal e1 => defaultPrevented e1
  | Throw _ => false
  end.

(** * Properties *)

(** ** The model on concrete pages *)

Example toggle_150 :
  toggleScrollTop (mkState (Some 0%nat) [mkElement "scroll-top" ["btn"] []] 150 [] [])
  = (Normal tt,
     mkState (Some 0%nat) [mkElement "scroll-top" ["btn"; "active"] []] 150 [] [],
     [GetScrollY; ClassListAdd 0%nat "active"]).
Proof. reflexivity. Qed.

Example run_with_button :
  run [mkMarkup "main" []; button] 0 [Load; Scroll 150; Click 1%nat; Scroll 50]
  = mkRun (Normal tt)
     [GetElementById "scroll-top";
      AddEventListener (TElement 1%nat) "click" OnClick;
      AddEventListener TWindow "load" ToggleScrollTop;
      AddEventListener TDocument "scroll" ToggleScrollTop]
     (mkState (Some 1%nat)
       [mkElement "main" [] [];
        mkElement "scroll-top" ["scroll-top"] [("click", OnClick)]]
       50 [("load", ToggleScrollTop)] [("scroll", ToggleScrollTop)])
     [(Load, [(ToggleScrollTop, [GetScrollY; ClassListRemove 1%nat "active"])]);
      (Scroll 150, [(ToggleScrollTop, [GetScrollY; ClassListAdd 1%nat "active"])]);
      (Click 1%nat, [(OnClick, [PreventDefault; ScrollTo 0 "smooth"])]);
      (Scroll 50, [(ToggleScrollTop, [GetScrollY; ClassListRemove 1%nat "active"])])].
Proof. reflexivity. Qed.

Example run_without_button :
  run [mkMarkup "main" []] 0 [Load; Scroll 150; Click 0%nat]
  = mkRun (Throw TypeError)
     [GetElementById "scroll-top"]
     (mkState None [mkElement "main" [] []] 150 [] [])
     [(Load, []); (Scroll 150, []); (Click 0%nat, [])].
Proof. reflexivity. Qed.

(** ** Tokens and comparisons *)

Lemma js_gt_spec (x y : Q) : js_gt x y = true <-> (y < x)%Q.
Proof.
  unfold js_gt. rewrite negb_true_iff. split.
  - intros Hb. apply Qnot_le_lt. intros Hle.
    apply Qle_bool_iff in Hle. congruence.
  - intros Hlt. destruct (Qle_bool x y) eqn:Hb; [|done].
    apply Qle_bool_iff in Hb. exfalso. exact (Qlt_not_le _ _ Hlt Hb).
Qed.

Lemma token_add_elem (tok : string) (l : list string) : tok ∈ token_add tok l.
Proof.
  unfold token_add. case_decide; [done|].
  apply elem_of_app. right. apply list_elem_of_singleton. done.
Qed.

Lemma token_remove_elem (tok : string) (l : list string) : tok ∉ token_remove tok l.
Proof. unfold token_remove. rewrite list_elem_of_filter. by intros [Hne _]. Qed.

Lemma token_add_idemp (tok : string) (l : list string) :
  token_add tok (token_add tok l) = token_add tok l.
Proof.
  unfold token_add at 1. case_decide as Hin; [done|].
  destruct Hin. apply token_add_elem.
Qed.

Lemma token_remove_idemp (tok : string) (l : list string) :
  token_remove tok (token_remove tok l) = token_remove tok l.
Proof.
  unfold token_remove. induction l as [|t l IH]; [done|].
  rewrite (filter_cons _ t l). case_decide as Ht.
  - rewrite filter_cons. case_decide; [|done]. by f_equal.
  - exact IH.
Qed.

(** Adding or removing one token leaves all the others, in order. *)
Lemma token_add_others (tok : string) (l : list string) :
  filter (fun t => t ≠ tok) (token_add tok l) = filter (fun t => t ≠ tok) l.
Proof.
  unfold token_add. case_decide; [done|].
  rewrite filter_app, filter_cons. case_decide; [done|].
  by rewrite filter_nil, app_nil_r.
Qed.

Lemma token_remove_others (tok : string) (l : list string) :
  filter (fun t => t ≠ tok) (token_remove tok l) = filter (fun t => t ≠ tok) l.
Proof. apply token_remove_idemp. Qed.

(** ** toggleScrollTop, equation by equation *)

Lemma toggleScrollTop_null (st : State) :
  scrollTop st = None -> toggleScrollTop st = (Normal tt, st, []).
Proof.
  intros Hnull. unfold toggleScrollTop, mbind, M_bind, read_scrollTop.
  by rewrite Hnull.
Qed.

Lemma toggleScrollTop_element (st : State) (h : handle) :
  scrollTop st = Some h ->
  toggleScrollTop st =
    (Normal tt,
     set_elements (alter (set_classList (retoken (scrollY st))) h) st,
     [GetScrollY;
      if js_gt (scrollY st) 100
      then ClassListAdd h "active" else ClassListRemove h "active"]).
Proof.
  intros Hh. unfold toggleScrollTop, mbind, M_bind, read_scrollTop, getScrollY, retoken.
  rewrite Hh. by destruct (js_gt (scrollY st) 100).
Qed.

Lemma retoken_idemp (y : Q) (l : list string) : retoken y (retoken y l) = retoken y l.
Proof.
  unfold retoken. destruct (js_gt y 100);
    [apply token_add_idemp | apply token_remove_idemp].
Qed.

Lemma retoken_others (y : Q) (l : list string) :
  filter (fun t => t ≠ "active") (retoken y l) = filter (fun t => t ≠ "active") l.
Proof.
  unfold retoken. destruct (js_gt y 100);
    [apply token_add_others | apply token_remove_others].
Qed.

Lemma retoken_active (y : Q) (l : list string) :
  "active" ∈ retoken y l <-> (100 < y)%Q.
Proof.
  rewrite <- js_gt_spec. unfold retoken. destruct (js_gt y 100).
  - split; [done|]. intros _. apply token_add_elem.
  - split; [|done]. intros Hin. by apply token_remove_elem in Hin.
Qed.

(** C2. Threshold law: when the control reference exists, after a call of
    [toggleScrollTop] at scroll offset [s] the call has returned normally
    and the control carries the token "active" if and only if [s > 100];
    at the boundary [s = 100] it does not carry it. *)
Theorem toggleScrollTop_threshold (st : State) (h : handle) (el : Element) :
  scrollTop st = Some h ->
  elements st !! h = Some el ->
  completion (toggleScrollTop st) = Normal tt /\
  exists el',
    elements (final (toggleScrollTop st)) !! h = Some el' /\
    ("active" ∈ classList el' <-> (100 < scrollY st)%Q) /\
    ((scrollY st == 100)%Q -> "active" ∉ classList el').
Proof.
  intros Hh Hel. rewrite (toggleScrollTop_element st h Hh).
  split; [done|].
  exists (set_classList (retoken (scrollY st)) el).
  unfold final, set_elements; cbn [fst snd elements].
  rewrite list_lookup_alter_eq, Hel. split; [done|].
  cbn [set_classList classList]. split; [apply retoken_active|].
  intros Heq Hin. apply retoken_active in Hin.
  rewrite Heq in Hin. exact (Qlt_irrefl _ Hin).
Qed.

Lemma toggleScrollTop_threshold_witness :
  let st := mkState (Some 1%nat)
              [mkElement "main" [] []; mkElement "scroll-top" ["btn"; "active"] []]
              100 [] [] in
  scrollTop st = Some 1%nat /\
  elements st !! 1%nat = Some (mkElement "scroll-top" ["btn"; "active"] []) /\
  completion (toggleScrollTop st) = Normal tt /\
  exists el',
    elements (final (toggleScrollTop st)) !! 1%nat = Some el' /\
    ("active" ∈ classList el' <-> (100 < scrollY st)%Q) /\
    ((scrollY st == 100)%Q -> "active" ∉ classList el').
Proof.
  intros st. split; [reflexivity|]. split; [reflexivity|].
  apply (toggleScrollTop_threshold st 1%nat
           (mkElement "scroll-top" ["btn"; "active"] [])); reflexivity.
Defined.

(** ** Updating one element of the document *)

Section Alter.
Context {A B : Type}.
Implicit Types (f : A -> A) (g : A -> B) (l : list A) (i : nat).

Lemma alter_idemp f i l :
  (forall x, f (f x) = f x) -> alter f i (alter f i l) = alter f i l.
Proof.
  intros Hf. revert i. induction l as [|x l IH]; intros [|i]; cbn; [done..| |].
  - by rewrite Hf.
  - f_equal. apply IH.
Qed.

Lemma alter_fmap_frame f g i l :
  (forall x, g (f x) = g x) -> g <$> alter f i l = g <$> l.
Proof.
  intros Hf. revert i. induction l as [|x l IH]; intros [|i]; cbn; [done..| |].
  - by rewrite Hf.
  - f_equal. apply IH.
Qed.
End Alter.

(** C5. Absent control: when the control reference is absent (null), a call
    of [toggleScrollTop] returns normally, leaves the whole state as it was
    and makes no host call at all. *)
Theorem toggleScrollTop_absent_noop (st : State) :
  scrollTop st = None ->
  completion (toggleScrollTop st) = Normal tt /\
  final (toggleScrollTop st) = st /\
  trace (toggleScrollTop st) = [].
Proof. intros Hnull. by rewrite (toggleScrollTop_null st Hnull). Qed.

Lemma toggleScrollTop_absent_noop_witness :
  let st := mkState None [mkElement "main" ["active"] []] 150 [] [] in
  scrollTop st = None /\
  completion (toggleScrollTop st) = Normal tt /\
  final (toggleScrollTop st) = st /\
  trace (toggleScrollTop st) = [].
Proof.
  intros st. split; [reflexivity|].
  apply (toggleScrollTop_absent_noop st). reflexivity.
Defined.

(** C4. Idempotence: from every state, a second call of [toggleScrollTop]
    at the same scroll offset leaves the state, and with it the class
    tokens of the control, exactly as the first call left it. *)
Theorem toggleScrollTop_idempotent (st : State) :
  final (toggleScrollTop (final (toggleScrollTop st))) = final (toggleScrollTop st).
Proof.
  destruct (scrollTop st) as [h|] eqn:Hh.
  - rewrite (toggleScrollTop_element st h Hh). unfold final; cbn [fst snd].
    rewrite (toggleScrollTop_element _ h) by exact Hh.
    unfold set_elements; cbn. f_equal.
    apply alter_idemp. intros [i c l]. unfold set_classList; cbn.
    by rewrite retoken_idemp.
  - rewrite (toggleScrollTop_null st Hh). unfold final; cbn [fst snd].
    by rewrite (toggleScrollTop_null st Hh).
Qed.

(** C9. Frame of [toggleScrollTop]: from every state the call returns
    normally; the binding, the scroll offset and the listeners of window
    and document are unchanged; every element keeps its id, its listeners
    and all its class tokens other than "active"; the element list changes
    at most at the control, and there only in the class tokens; and no
    command of the call scrolls the viewport or registers a listener. *)
Theorem toggleScrollTop_frame (st : State) :
  completion (toggleScrollTop st) = Normal tt /\
  scrollTop (final (toggleScrollTop st)) = scrollTop st /\
  scrollY (final (toggleScrollTop st)) = scrollY st /\
  win_listeners (final (toggleScrollTop st)) = win_listeners st /\
  doc_listeners (final (toggleScrollTop st)) = doc_listeners st /\
  but_active <$> elements (final (toggleScrollTop st)) = but_active <$> elements st /\
  (exists f,
     elements (final (toggleScrollTop st)) =
       match scrollTop st with
       | Some h => alter (set_classList f) h (elements st)
       | None => elements st
       end) /\
  Forall (fun c => scrolls_or_registers c = false) (trace (toggleScrollTop st)).
Proof.
  destruct (scrollTop st) as [h|] eqn:Hh.
  - rewrite (toggleScrollTop_element st h Hh).
    unfold completion, final, trace, set_elements; cbn [fst snd].
    cbn [scrollTop scrollY win_listeners doc_listeners elements].
    split_and!; try done.
    + apply alter_fmap_frame. intros [i c l]. unfold but_active, set_classList; cbn.
      by rewrite retoken_others.
    + by exists (retoken (scrollY st)).
    + repeat constructor. by destruct (js_gt (scrollY st) 100).
  - rewrite (toggleScrollTop_null st Hh).
    unfold completion, final, trace; cbn [fst snd].
    split_and!; [done..| |done]. by exists id.
Qed.

(** ** The click listener *)

Lemma onClick_run (e : Event) (st : State) :
  onClick e st =
    (Normal {| ev_type := ev_type e; cancelable := cancelable e;
               defaultPrevented := cancelable e || defaultPrevented e |},
     st, [PreventDefault; ScrollTo 0 "smooth"]).
Proof. reflexivity. Qed.

(** C3. Activation effect: for every event object and in every state (so at
    every scroll offset), one invocation of the click listener makes exactly
    two host calls: one [preventDefault] on the event and one
    [scrollTo] with top 0 and behaviour "smooth"; no other command is
    issued. *)
Theorem onClick_effect (e : Event) (st : State) :
  trace (onClick e st) = [PreventDefault; ScrollTo 0 "smooth"] /\
  length (filter (fun c => is_preventDefault c) (trace (onClick e st))) = 1%nat /\
  filter (fun c => scrolls_or_registers c) (trace (onClick e st))
    = [ScrollTo 0 "smooth"].
Proof. by rewrite onClick_run. Qed.

(** C10. Frame of activation: the click listener leaves the state as it
    found it, so every element, the control included, has the same class
    tokens after the call as before it. *)
Theorem onClick_frame (e : Event) (st : State) :
  final (onClick e st) = st /\
  classList <$> elements (final (onClick e st)) = classList <$> elements st.
Proof. by rewrite onClick_run. Qed.

(** C6, as amended. Ordering and no navigation: in every invocation of the
    click listener, [preventDefault] is the first host call and returns before
    [scrollTo] with top 0 is issued; the listener's run is that call
    followed by the scroll command, and on a cancelable event, as a click is,
    the event is marked as default-prevented from then on. *)
Theorem onClick_prevents_then_scrolls (e : Event) (st : State) :
  exists e1 : Event,
    preventDefault e st = (Normal e1, st, [PreventDefault]) /\
    scrollTo 0 "smooth" st = (Normal tt, st, [ScrollTo 0 "smooth"]) /\
    onClick e st = (Normal e1, st, [PreventDefault] ++ [ScrollTo 0 "smooth"]) /\
    (cancelable e = true -> defaultPrevented e1 = true).
Proof.
  eexists. split; [reflexivity|]. split; [reflexivity|]. split; [reflexivity|].
  cbn. by intros ->.
Qed.

Lemma onClick_prevents_then_scrolls_witness :
  let e := event_object (Click 1%nat) in
  let st := mkState (Some 1%nat)
              [mkElement "main" [] []; mkElement "scroll-top" ["active"] []]
              640 [] [] in
  cancelable e = true /\
  exists e1 : Event,
    preventDefault e st = (Normal e1, st, [PreventDefault]) /\
    scrollTo 0 "smooth" st = (Normal tt, st, [ScrollTo 0 "smooth"]) /\
    onClick e st = (Normal e1, st, [PreventDefault] ++ [ScrollTo 0 "smooth"]) /\
    (cancelable e = true -> defaultPrevented e1 = true).
Proof.
  intros e st. split; [reflexivity|].
  exact (onClick_prevents_then_scrolls e st).
Defined.

(** C6, as stated, fails on a click event that is not cancelable (one a
    page script dispatches with [new Event("click")]): the listener calls
    [preventDefault] and then [scrollTo] as always, and the event comes back
    not default-prevented, so the host goes on to the default behaviour. *)
Lemma onClick_not_cancelable_not_suppressed :
  let e := mkEvent "click" false false in
  let st := mkState (Some 0%nat)
              [mkElement "scroll-top" ["active"] [("click", OnClick)]]
              640 [("load", ToggleScrollTop)] [("scroll", ToggleScrollTop)] in
  trace (onClick e st) = [PreventDefault; ScrollTo 0 "smooth"] /\
  default_suppressed (onClick e st) = false /\
  ~ (forall (e' : Event) (st' : State), default_suppressed (onClick e' st') = true).
Proof.
  intros e st. split; [reflexivity|]. split; [reflexivity|].
  intros Hall. specialize (Hall e st). discriminate Hall.
Qed.

(** ** Running the script *)

Lemma script_run (page : list Markup) (y : Q) :
  script (boot page y) =
    match find_control page with
    | Some h =>
        (Normal tt,
         mkState (Some h)
           (alter (set_el_listeners (listener_add "click" OnClick)) h
              (parse_element <$> page))
           y [("load", ToggleScrollTop)] [("scroll", ToggleScrollTop)],
         [GetElementById "scroll-top";
          AddEventListener (TElement h) "click" OnClick;
          AddEventListener TWindow "load" ToggleScrollTop;
          AddEventListener TDocument "scroll" ToggleScrollTop])
    | None =>
        (Throw TypeError,
         mkState None (parse_element <$> page) y [] [],
         [GetElementById "scroll-top"])
    end.
Proof.
  unfold script, find_control, mbind, M_bind, getElementById, bind_scrollTop,
    read_scrollTop, boot; cbn [elements scrollTop].
  by destruct (list_find _ _) as [[h el]|].
Qed.

(** C1, on a page that has no element with id "scroll-top": the lookup of
    line 1 yields null, the member access of line 10 throws a TypeError, the
    script stops there and neither the load nor the scroll listener of lines
    18-19 is registered. *)
Theorem script_throws_without_control :
  script (boot [mkMarkup "main" ["container"]] 0) =
    (Throw TypeError,
     mkState None [mkElement "main" ["container"] []] 0 [] [],
     [GetElementById "scroll-top"]).
Proof. reflexivity. Qed.

(** The same on every page without the control. *)
Lemma script_throws_when_absent (page : list Markup) (y : Q) :
  find_control page = None ->
  completion (script (boot page y)) = Throw TypeError /\
  win_listeners (final (script (boot page y))) = [] /\
  doc_listeners (final (script (boot page y))) = [].
Proof. intros Hnone. by rewrite script_run, Hnone. Qed.

(** With the control on the page the script runs to its end. *)
Lemma script_completes_when_present (page : list Markup) (y : Q) (h : handle) :
  find_control page = Some h ->
  completion (script (boot page y)) = Normal tt.
Proof. intros Hh. by rewrite script_run, Hh. Qed.

(** ** What no listener ever changes *)

Lemma stable_refl (st : State) : stable st st.
Proof. by constructor. Qed.

Lemma stable_trans (st1 st2 st3 : State) :
  stable st1 st2 -> stable st2 st3 -> stable st1 st3.
Proof. intros [] []. constructor; congruence. Qed.

Lemma listeners_of_element (i : handle) (st : State) :
  listeners_of (TElement i) st = default [] ((el_listeners <$> elements st) !! i).
Proof. cbn. by rewrite list_lookup_fmap. Qed.

Lemma stable_listeners_of (st st' : State) (t : Target) :
  stable st st' -> listeners_of t st' = listeners_of t st.
Proof.
  intros []. destruct t as [| |i]; [done..|].
  rewrite !listeners_of_element. congruence.
Qed.

Lemma stable_host_update (ev : HostEvent) (st : State) : stable st (host_update ev st).
Proof. destruct ev; by constructor. Qed.

Lemma stable_retoken (f : list string -> list string) (h : handle) (st : State) :
  stable st (set_elements (alter (set_classList f) h) st).
Proof.
  constructor; cbn; [done| |done..|]; by apply alter_fmap_frame; intros [].
Qed.

Lemma toggleScrollTop_stable (st : State) :
  exists st' t,
    toggleScrollTop st = (Normal tt, st', t) /\ stable st st' /\
    Forall (fun c => is_lookup c = false) t.
Proof.
  destruct (scrollTop st) as [h|] eqn:Hh.
  - rewrite (toggleScrollTop_element st h Hh). do 2 eexists.
    split; [reflexivity|]. split; [apply stable_retoken|].
    repeat constructor. by destruct (js_gt (scrollY st) 100).
  - rewrite (toggleScrollTop_null st Hh). do 2 eexists.
    split; [reflexivity|]. split; [apply stable_refl|constructor].
Qed.

Lemma call_stable (cb : Callback) (e : Event) (st : State) :
  exists e' st' t,
    call cb e st = (Normal e', st', t) /\ stable st st' /\
    Forall (fun c => is_lookup c = false) t.
Proof.
  destruct cb; cbn [call].
  - destruct (toggleScrollTop_stable st) as (st' & t & Hrun & Hst & Ht).
    exists e, st', t. unfold mbind, M_bind. rewrite Hrun; cbn.
    by rewrite app_nil_r.
  - rewrite onClick_run. do 3 eexists.
    split; [reflexivity|]. split; [apply stable_refl|]. by repeat constructor.
Qed.

Lemma invoke_all_stable (cbs : list Callback) (e : Event) (st : State) :
  stable st (invoke_all cbs e st).1.2 /\
  fst <$> (invoke_all cbs e st).2 = cbs /\
  quiet (invoke_all cbs e st).2.
Proof.
  revert e st. induction cbs as [|cb cbs IH]; intros e st; cbn [invoke_all].
  - split; [apply stable_refl|]. split; [done|constructor].
  - destruct (call_stable cb e st) as (e1 & st1 & t & -> & Hst & Ht).
    specialize (IH e1 st1).
    destruct (invoke_all cbs e1 st1) as [[e2 st2] invs]; cbn in *.
    destruct IH as (Hst2 & Hcbs & Hq).
    split; [by eapply stable_trans|]. split; [by f_equal|].
    by constructor.
Qed.

Lemma dispatch_stable (ev : HostEvent) (st : State) :
  stable st (dispatch ev st).1.2 /\
  fst <$> (dispatch ev st).2 =
    callbacks_for (event_type ev) (event_path ev) (host_update ev st) /\
  quiet (dispatch ev st).2.
Proof.
  unfold dispatch.
  destruct (invoke_all_stable
              (callbacks_for (event_type ev) (event_path ev) (host_update ev st))
              (event_object ev) (host_update ev st)) as (Hst & Hcbs & Hq).
  split; [|done]. eapply stable_trans; [apply stable_host_update|exact Hst].
Qed.

Lemma session_cons (ev : HostEvent) (evs : list HostEvent) (st : State) :
  session (ev :: evs) st =
    ((session evs (dispatch ev st).1.2).1,
     (ev, (dispatch ev st).2) :: (session evs (dispatch ev st).1.2).2).
Proof.
  cbn [session]. destruct (dispatch ev st) as [[e1 st1] invs]; cbn.
  by destruct (session evs st1).
Qed.

Lemma session_stable (evs : list HostEvent) (st : State) :
  stable st (session evs st).1 /\
  fst <$> (session evs st).2 = evs /\
  Forall (fun p : HostEvent * list Invocation => quiet p.2) (session evs st).2.
Proof.
  revert st. induction evs as [|ev evs IH]; intros st.
  - split; [apply stable_refl|]. split; [done|constructor].
  - rewrite session_cons; cbn [fst snd].
    destruct (dispatch_stable ev st) as (Hst & _ & Hq).
    destruct (IH (dispatch ev st).1.2) as (Hst' & Hevs & Hqs).
    split; [by eapply stable_trans|]. split; [by cbn; f_equal|].
    by constructor.
Qed.

(** ** The wiring *)

Lemma wired_stable (h : handle) (st st' : State) :
  wired h st -> stable st st' -> wired h st'.
Proof.
  intros [Hw Hd He] Hst.
  constructor; intros; rewrite (stable_listeners_of st st' _ Hst); auto.
Qed.

Lemma unwired_stable (st st' : State) : unwired st -> stable st st' -> unwired st'.
Proof. intros Hu Hst t. rewrite (stable_listeners_of st st' t Hst). apply Hu. Qed.

Lemma callbacks_for_stable (type : string) (path : list Target) (st st' : State) :
  stable st st' -> callbacks_for type path st' = callbacks_for type path st.
Proof.
  intros Hst. unfold callbacks_for.
  induction path as [|t path IH]; [done|]. cbn.
  by rewrite IH, (stable_listeners_of st st' t Hst).
Qed.

Lemma callbacks_for_cons (type : string) (t : Target) (path : list Target)
    (st : State) :
  callbacks_for type (t :: path) st =
    (snd <$> filter (fun l => l.1 = type) (listeners_of t st))
      ++ callbacks_for type path st.
Proof. reflexivity. Qed.

(** Along the elements of a click path, a wired page holds the click
    listener at the control and nothing anywhere else. *)
Lemma callbacks_wired_elements (h : handle) (l : list handle)
    (path : list Target) (st : State) :
  wired h st ->
  callbacks_for "click" ((TElement <$> l) ++ path) st =
    (l ≫= fun j => if decide (j = h) then [OnClick] else [])
      ++ callbacks_for "click" path st.
Proof.
  intros [_ _ He]. induction l as [|j l IH]; [done|].
  cbn [fmap list_fmap app]. rewrite callbacks_for_cons, IH, He.
  cbn. by case_decide.
Qed.

Lemma callbacks_wired (h : handle) (ev : HostEvent) (st : State) :
  wired h st ->
  callbacks_for (event_type ev) (event_path ev) (host_update ev st)
    = wired_callbacks h ev.
Proof.
  intros Hw.
  rewrite (callbacks_for_stable _ _ st) by apply stable_host_update.
  destruct ev as [|y|i anc]; cbn [event_type event_path wired_callbacks].
  - destruct Hw as [Hw _ _]. rewrite callbacks_for_cons, Hw. reflexivity.
  - destruct Hw as [Hw Hd _]. rewrite !callbacks_for_cons, Hd, Hw. reflexivity.
  - change (TElement i :: (TElement <$> anc) ++ [TDocument; TWindow])
      with ((TElement <$> i :: anc) ++ [TDocument; TWindow]).
    rewrite (callbacks_wired_elements h _ _ st Hw).
    destruct Hw as [Hw Hd _]. rewrite !callbacks_for_cons, Hd, Hw.
    cbn. by rewrite app_nil_r.
Qed.

Lemma callbacks_unwired (ev : HostEvent) (st : State) :
  unwired st ->
  callbacks_for (event_type ev) (event_path ev) (host_update ev st) = [].
Proof.
  intros Hu. rewrite (callbacks_for_stable _ _ st) by apply stable_host_update.
  unfold callbacks_for.
  induction (event_path ev) as [|t path IH]; [done|]. cbn. by rewrite IH, Hu.
Qed.

(** On a wired page every host event runs exactly the callbacks registered
    for it, and the page stays wired. *)
Lemma session_wired (h : handle) (evs : list HostEvent) (st : State) :
  wired h st ->
  wired h (session evs st).1 /\
  Forall (fun p : HostEvent * list Invocation => fst <$> p.2 = wired_callbacks h p.1)
    (session evs st).2.
Proof.
  revert st. induction evs as [|ev evs IH]; intros st Hw.
  - split; [done|constructor].
  - rewrite session_cons; cbn [fst snd].
    destruct (dispatch_stable ev st) as (Hst & Hcbs & _).
    destruct (IH (dispatch ev st).1.2) as (Hw' & Hlog);
      [by eapply wired_stable|].
    split; [done|]. constructor; [|done].
    cbn. rewrite Hcbs. by apply callbacks_wired.
Qed.

Lemma session_unwired (evs : list HostEvent) (st : State) :
  unwired st ->
  Forall (fun p : HostEvent * list Invocation => p.2 = []) (session evs st).2.
Proof.
  revert st. induction evs as [|ev evs IH]; intros st Hu.
  - constructor.
  - rewrite session_cons; cbn [fst snd].
    destruct (dispatch_stable ev st) as (Hst & Hcbs & _).
    constructor; [|apply IH; by eapply unwired_stable].
    cbn. rewrite callbacks_unwired in Hcbs by done.
    by destruct ((dispatch ev st).2).
Qed.

Lemma listener_add_nil (type : string) (cb : Callback) :
  listener_add type cb [] = [(type, cb)].
Proof. unfold listener_add. case_decide as Hin; [|done]. by apply elem_of_nil in Hin. Qed.

Lemma find_control_Some (page : list Markup) (h : handle) :
  find_control page = Some h -> exists m, page !! h = Some m /\ m_id m = "scroll-top".
Proof.
  unfold find_control. intros Hf.
  destruct (list_find _ _) as [[i el]|] eqn:Hfind; [|done].
  cbn in Hf. injection Hf as ->.
  apply list_find_Some in Hfind as (Hel & Hid & _).
  rewrite list_lookup_fmap in Hel.
  destruct (page !! h) as [m|]; [|done].
  exists m. split; [done|]. cbn in Hel. by injection Hel as <-.
Qed.

Lemma script_wires (page : list Markup) (y : Q) (h : handle) :
  find_control page = Some h -> wired h (final (script (boot page y))).
Proof.
  intros Hh. destruct (find_control_Some page h Hh) as (m & Hm & _).
  rewrite script_run, Hh. unfold final; cbn [fst snd].
  constructor; [done..|]. intros i. cbn.
  rewrite list_lookup_alter, !list_lookup_fmap.
  case_decide as Hi.
  - subst i. rewrite decide_True by done. rewrite Hm. cbn.
    apply listener_add_nil.
  - rewrite decide_False by done. by destruct (page !! i).
Qed.

Lemma script_unwired (page : list Markup) (y : Q) :
  find_control page = None -> unwired (final (script (boot page y))).
Proof.
  intros Hnone. rewrite script_run, Hnone. unfold final; cbn [fst snd].
  intros [| |i]; [done..|]. cbn. rewrite list_lookup_fmap. by destruct (page !! i).
Qed.

(** ** Whole runs *)

Lemma run_unfold (page : list Markup) (y : Q) (evs : list HostEvent) :
  run page y evs =
    mkRun (completion (script (boot page y))) (trace (script (boot page y)))
      (session evs (final (script (boot page y)))).1
      (session evs (final (script (boot page y)))).2.
Proof.
  unfold run, completion, final, trace.
  destruct (script (boot page y)) as [[c st] t]; cbn.
  by destruct (session evs st).
Qed.

Lemma invocations_cons (cb : Callback) (p : HostEvent * list Invocation)
    (log : list (HostEvent * list Invocation)) :
  invocations cb (p :: log) =
    (length (filter (fun c => c = cb) (fst <$> p.2)) + invocations cb log)%nat.
Proof. unfold invocations. cbn. by rewrite filter_app, length_app. Qed.

Lemma wired_callbacks_toggles (h : handle) (ev : HostEvent) :
  length (filter (fun c => c = ToggleScrollTop) (wired_callbacks h ev))
    = if triggers_toggle ev then 1%nat else 0%nat.
Proof.
  destruct ev as [|y|i anc]; [done..|]. cbn [wired_callbacks triggers_toggle].
  induction (i :: anc) as [|j l IH]; [done|].
  cbn. rewrite filter_app, length_app, IH. by case_decide.
Qed.

Lemma toggles_wired (h : handle) (log : list (HostEvent * list Invocation)) :
  Forall (fun p : HostEvent * list Invocation => fst <$> p.2 = wired_callbacks h p.1) log ->
  Forall (fun p : HostEvent * list Invocation =>
            toggles p.2 = if triggers_toggle p.1 then 1%nat else 0%nat) log.
Proof.
  intros Hlog. eapply Forall_impl; [exact Hlog|].
  intros [ev invs] Hp. unfold toggles. cbn in *.
  rewrite Hp. apply wired_callbacks_toggles.
Qed.

Lemma invocations_toggles (log : list (HostEvent * list Invocation)) :
  Forall (fun p : HostEvent * list Invocation =>
            toggles p.2 = if triggers_toggle p.1 then 1%nat else 0%nat) log ->
  invocations ToggleScrollTop log = length (filter triggers_toggle (fst <$> log)).
Proof.
  induction 1 as [|[ev invs] log Hp _ IH]; [done|].
  rewrite invocations_cons, IH. unfold toggles in Hp. cbn in *. rewrite Hp.
  by destruct (triggers_toggle ev).
Qed.

Lemma invocations_none (cb : Callback) (log : list (HostEvent * list Invocation)) :
  Forall (fun p : HostEvent * list Invocation => p.2 = []) log ->
  invocations cb log = 0%nat.
Proof.
  induction 1 as [|[ev invs] log Hp _ IH]; [done|].
  rewrite invocations_cons, IH. cbn in *. by subst invs.
Qed.

(** X10. With the control on the page, the wiring is as lines 18-19 set it up:
    the script completes, each load and each scroll event runs
    [toggleScrollTop] exactly once, a click, wherever it lands and whatever
    it bubbles through, runs it never, and so the number of its invocations
    in a session is the number of load and scroll events. *)
Lemma wiring_with_control (page : list Markup) (y : Q) (h : handle)
    (evs : list HostEvent) :
  find_control page = Some h ->
  script_completion (run page y evs) = Normal tt /\
  fst <$> event_log (run page y evs) = evs /\
  Forall (fun p : HostEvent * list Invocation =>
            toggles p.2 = if triggers_toggle p.1 then 1%nat else 0%nat)
    (event_log (run page y evs)) /\
  invocations ToggleScrollTop (event_log (run page y evs))
    = length (filter triggers_toggle evs).
Proof.
  intros Hh. rewrite run_unfold; cbn [script_completion event_log].
  pose proof (script_wires page y h Hh) as Hw.
  destruct (session_wired h evs _ Hw) as (_ & Hlog).
  apply toggles_wired in Hlog.
  destruct (session_stable evs (final (script (boot page y)))) as (_ & Hevs & _).
  split; [by eapply script_completes_when_present|]. split; [done|].
  split; [done|]. by rewrite invocations_toggles, Hevs.
Qed.

(** Without the control, no event of any session invokes anything. *)
Lemma wiring_without_control (page : list Markup) (y : Q) (evs : list HostEvent) :
  find_control page = None ->
  script_completion (run page y evs) = Throw TypeError /\
  forall cb, invocations cb (event_log (run page y evs)) = 0%nat.
Proof.
  intros Hnone. rewrite run_unfold; cbn [script_completion event_log].
  split; [by apply script_throws_when_absent|].
  intros cb. apply invocations_none, session_unwired. by apply script_unwired.
Qed.

(** C7, on a page that has no element with id "scroll-top": the script
    stops with the TypeError of line 10 before lines 18-19, so the load
    event and the two scroll events that follow invoke nothing;
    [toggleScrollTop] runs zero times where the wiring calls for three. *)
Theorem wiring_lost_without_control :
  run [mkMarkup "main" ["container"]] 0 [Load; Scroll 150; Scroll 300] =
    mkRun (Throw TypeError)
      [GetElementById "scroll-top"]
      (mkState None [mkElement "main" ["container"] []] 300 [] [])
      [(Load, []); (Scroll 150, []); (Scroll 300, [])] /\
  invocations ToggleScrollTop
    (event_log (run [mkMarkup "main" ["container"]] 0 [Load; Scroll 150; Scroll 300]))
    = 0%nat /\
  length (filter triggers_toggle [Load; Scroll 150; Scroll 300]) = 3%nat.
Proof. split; [reflexivity|]. split; reflexivity. Qed.

(** C8. Reference stability: in every run, on every page and for every
    sequence of host events, the script looks the control up exactly once,
    as its first command; [scrollTop] holds the result of that lookup when
    the script ends and still holds it after the last event; no invocation
    of a listener looks anything up; and the elements of the document keep
    their ids, so the handle keeps designating the same element. *)
Theorem scrollTop_binding_stable (page : list Markup) (y : Q) (evs : list HostEvent) :
  length (filter is_lookup (script_trace (run page y evs))) = 1%nat /\
  head (script_trace (run page y evs)) = Some (GetElementById "scroll-top") /\
  scrollTop (end_state (run page y [])) = find_control page /\
  scrollTop (end_state (run page y evs)) = find_control page /\
  Forall (fun p : HostEvent * list Invocation => quiet p.2) (event_log (run page y evs)) /\
  el_id <$> elements (end_state (run page y evs)) = m_id <$> page.
Proof.
  rewrite !run_unfold; cbn [script_trace end_state event_log session fst].
  destruct (session_stable evs (final (script (boot page y)))) as ([Hs Hid _ _ _] & _ & Hq).
  rewrite Hs, Hid. clear Hs Hid. split_and!; [| | | |done|].
  - rewrite script_run. by destruct (find_control page).
  - rewrite script_run. by destruct (find_control page).
  - rewrite script_run. by destruct (find_control page).
  - rewrite script_run. by destruct (find_control page).
  - rewrite script_run. unfold final.
    destruct (find_control page); cbn [fst snd elements].
    + rewrite (alter_fmap_frame _ el_id) by (by intros []).
      rewrite <- list_fmap_compose. done.
    + rewrite <- list_fmap_compose. done.
Qed.

(** Click listeners alone leave the state as it is. *)
Lemma invoke_all_onClick (cbs : list Callback) (e : Event) (st : State) :
  Forall (fun c => c = OnClick) cbs ->
  (invoke_all cbs e st).1.2 = st /\
  (invoke_all cbs e st).2 =
    (fun _ => (OnClick, [PreventDefault; ScrollTo 0 "smooth"])) <$> cbs.
Proof.
  intros Hcbs. revert e. induction Hcbs as [|cb cbs -> _ IH]; intros e; [done|].
  cbn [invoke_all call]. rewrite onClick_run.
  specialize (IH {| ev_type := ev_type e; cancelable := cancelable e;
                    defaultPrevented := cancelable e || defaultPrevented e |}).
  destruct (invoke_all cbs _ st) as [[e2 st2] invs]; cbn in *.
  destruct IH as [-> ->]. done.
Qed.

Lemma wired_callbacks_click (h i : handle) (anc : list handle) :
  Forall (fun c => c = OnClick) (wired_callbacks h (ClickAt i anc)).
Proof.
  cbn [wired_callbacks]. induction (i :: anc) as [|j l IH]; [constructor|].
  cbn. case_decide; [by constructor|done].
Qed.

(** On a path without repetition that holds the control, the click
    listener is met once. *)
Lemma wired_callbacks_once (h : handle) (l : list handle) :
  NoDup l -> h ∈ l ->
  (l ≫= fun j => if decide (j = h) then [OnClick] else []) = [OnClick].
Proof.
  induction 1 as [|j l Hj Hnd IH]; intros Hin; [by apply elem_of_nil in Hin|].
  cbn. case_decide as Hjh.
  - subst j. cbn. f_equal. clear IH Hin.
    induction l as [|k l IHl]; [done|]. cbn.
    apply not_elem_of_cons in Hj as [Hk Hl]. apply NoDup_cons in Hnd as [_ Hnd].
    rewrite decide_False by done. by apply IHl.
  - apply elem_of_cons in Hin as [->|Hin]; [done|]. by apply IH.
Qed.

(** On a wired page a click, wherever it lands, changes nothing. *)
Lemma dispatch_click_state (h i : handle) (anc : list handle) (st : State) :
  wired h st -> (dispatch (ClickAt i anc) st).1.2 = st.
Proof.
  intros Hw. unfold dispatch. rewrite (callbacks_wired h _ st Hw).
  cbn [host_update]. apply invoke_all_onClick, wired_callbacks_click.
Qed.

(** The scenarios of the specification, on a page with the control. *)
Example scenario_offsets :
  (classList <$> elements (end_state (run [button] 0 [Load])) = [["scroll-top"]]) /\
  (classList <$> elements (end_state (run [button] 0 [Load; Scroll 101]))
     = [["scroll-top"; "active"]]) /\
  (classList <$> elements (end_state (run [button] 0 [Load; Scroll 150; Scroll 50]))
     = [["scroll-top"]]) /\
  (classList <$> elements (end_state (run [button] 0 [Load; Scroll 100]))
     = [["scroll-top"]]) /\
  (classList <$> elements (end_state (run [button] 0 [Load; Scroll (1001 # 10)]))
     = [["scroll-top"; "active"]]).
Proof. split_and!; reflexivity. Qed.

(** ** Sessions, event by event *)

Lemma alter_compose {A : Type} (f g : A -> A) (i : nat) (l : list A) :
  alter f i (alter g i l) = alter (f ∘ g) i l.
Proof.
  revert i. induction l as [|x l IH]; intros [|i]; cbn; [done..|].
  f_equal. apply IH.
Qed.

Lemma retokened_refl (st : State) : retokened st st.
Proof.
  exists id. split; [done|]. destruct (scrollTop st); [|done].
  symmetry. apply list_alter_id. by intros [].
Qed.

Lemma retokened_trans (st1 st2 st3 : State) :
  scrollTop st2 = scrollTop st1 ->
  retokened st1 st2 -> retokened st2 st3 -> retokened st1 st3.
Proof.
  intros Hs (f & Hf & H12) (g & Hg & H23). rewrite Hs in H23.
  exists (g ∘ f). split; [intros l; cbn; by rewrite Hg, Hf|].
  destruct (scrollTop st1) as [h|]; [|congruence].
  rewrite H23, H12, alter_compose. apply list_alter_ext; [|done].
  by intros [].
Qed.

Lemma retokened_host_update (ev : HostEvent) (st : State) :
  retokened st (host_update ev st).
Proof.
  destruct (retokened_refl st) as (f & Hf & Hel).
  exists f. split; [done|]. by destruct ev.
Qed.

Lemma call_retokened (cb : Callback) (e : Event) (st : State) :
  retokened st (final (call cb e st)).
Proof.
  destruct cb; cbn [call].
  - unfold mbind, M_bind. destruct (scrollTop st) as [h|] eqn:Hh.
    + rewrite (toggleScrollTop_element st h Hh). unfold final; cbn.
      exists (retoken (scrollY st)). split; [apply retoken_others|].
      by rewrite Hh.
    + rewrite (toggleScrollTop_null st Hh). apply retokened_refl.
  - rewrite onClick_run. apply retokened_refl.
Qed.

Lemma invoke_all_retokened (cbs : list Callback) (e : Event) (st : State) :
  retokened st (invoke_all cbs e st).1.2.
Proof.
  revert e st. induction cbs as [|cb cbs IH]; intros e st; cbn [invoke_all].
  - apply retokened_refl.
  - pose proof (call_retokened cb e st) as Hcall.
    destruct (call_stable cb e st) as (e1 & st1 & t & Hrun & [Hs _ _ _ _] & _).
    rewrite Hrun in *. unfold final in Hcall; cbn in Hcall.
    specialize (IH e1 st1).
    destruct (invoke_all cbs e1 st1) as [[e2 st2] invs]; cbn in *.
    by eapply retokened_trans.
Qed.

Lemma dispatch_retokened (ev : HostEvent) (st : State) :
  retokened st (dispatch ev st).1.2.
Proof.
  unfold dispatch.
  eapply retokened_trans; [|apply retokened_host_update|apply invoke_all_retokened].
  by destruct ev.
Qed.

Lemma session_retokened (evs : list HostEvent) (st : State) :
  retokened st (session evs st).1.
Proof.
  revert st. induction evs as [|ev evs IH]; intros st.
  - apply retokened_refl.
  - rewrite session_cons; cbn [fst].
    destruct (dispatch_stable ev st) as ([Hs _ _ _ _] & _).
    eapply retokened_trans; [exact Hs|apply dispatch_retokened|apply IH].
Qed.

(** On a wired page a load or a scroll runs [toggleScrollTop] and nothing
    else. *)
Lemma dispatch_wired_toggle (h : handle) (ev : HostEvent) (st : State) :
  wired h st -> scrollTop st = Some h -> triggers_toggle ev = true ->
  dispatch ev st =
    (event_object ev,
     set_elements
       (alter (set_classList (retoken (scrollY (host_update ev st)))) h)
       (host_update ev st),
     [(ToggleScrollTop,
       [GetScrollY;
        if js_gt (scrollY (host_update ev st)) 100
        then ClassListAdd h "active" else ClassListRemove h "active"])]).
Proof.
  intros Hw Hh Hev. unfold dispatch. rewrite (callbacks_wired h ev st Hw).
  assert (scrollTop (host_update ev st) = Some h) as Hh0 by (by destruct ev).
  destruct ev as [|y|i]; [| |done]; cbn [wired_callbacks invoke_all call];
    unfold mbind, M_bind; rewrite (toggleScrollTop_element _ h Hh0); reflexivity.
Qed.


Lemma session_wired_log (P : HostEvent -> list Invocation -> Prop) (h : handle) :
  (forall st ev, wired h st -> scrollTop st = Some h -> P ev (dispatch ev st).2) ->
  forall evs st, wired h st -> scrollTop st = Some h ->
  Forall (fun p : HostEvent * list Invocation => P p.1 p.2) (session evs st).2.
Proof.
  intros HP. induction evs as [|ev evs IH]; intros st Hw Hh.
  - constructor.
  - rewrite session_cons; cbn [snd].
    destruct (dispatch_stable ev st) as (Hst & _).
    constructor; [by apply HP|].
    apply IH; [by eapply wired_stable|]. by rewrite (stable_scrollTop _ _ Hst).
Qed.

Lemma script_binds (page : list Markup) (y : Q) :
  scrollTop (final (script (boot page y))) = find_control page.
Proof. rewrite script_run. by destruct (find_control page). Qed.

Lemma script_elements (page : list Markup) (y : Q) :
  classList <$> elements (final (script (boot page y))) = m_class <$> page.
Proof.
  rewrite script_run. unfold final.
  destruct (find_control page); cbn [fst snd elements].
  - rewrite (alter_fmap_frame _ classList) by (by intros []).
    by rewrite <- list_fmap_compose.
  - by rewrite <- list_fmap_compose.
Qed.

Lemma synced_toggle (h : handle) (ev : HostEvent) (st : State) :
  wired h st -> scrollTop st = Some h -> is_Some (elements st !! h) ->
  triggers_toggle ev = true -> synced h (dispatch ev st).1.2.
Proof.
  intros Hw Hh [el Hel] Hev. rewrite (dispatch_wired_toggle h ev st Hw Hh Hev).
  cbn [fst snd]. assert (elements (host_update ev st) = elements st) as Hels
    by (by destruct ev).
  exists (set_classList (retoken (scrollY (host_update ev st))) el).
  unfold set_elements; cbn [elements scrollY]. rewrite Hels.
  rewrite list_lookup_alter_eq, Hel. split; [done|]. apply retoken_active.
Qed.

Lemma session_synced (h : handle) (evs : list HostEvent) (st : State) :
  wired h st -> scrollTop st = Some h -> is_Some (elements st !! h) ->
  synced h st \/ existsb triggers_toggle evs = true ->
  synced h (session evs st).1.
Proof.
  revert st. induction evs as [|ev evs IH]; intros st Hw Hh Hel Hor.
  - by destruct Hor.
  - rewrite session_cons; cbn [fst].
    destruct (dispatch_stable ev st) as (Hst & _).
    apply IH.
    + by eapply wired_stable.
    + by rewrite (stable_scrollTop _ _ Hst).
    + apply lookup_lt_is_Some. apply lookup_lt_is_Some in Hel.
      rewrite <- (length_fmap el_id), (stable_ids _ _ Hst), length_fmap. done.
    + destruct (triggers_toggle ev) eqn:Hev.
      * left. by apply synced_toggle.
      * destruct ev as [| |i anc]; [done..|].
        rewrite (dispatch_click_state h i anc st Hw).
        destruct Hor as [Hsync|Hex]; [|by right].
        by left.
Qed.

(** ** The script and its sessions, page by page *)

(** X1. On a page that carries the control, the script runs to its end with
    four host calls in source order: the lookup and the three registrations.
    Afterwards [scrollTop] is bound to an element whose id is "scroll-top",
    that element holds the click listener and no other, the window holds
    [toggleScrollTop] for load, the document holds it for scroll, and no
    other element holds any listener. *)
Theorem script_wires_page (page : list Markup) (y : Q) (h : handle) :
  find_control page = Some h ->
  completion (script (boot page y)) = Normal tt /\
  trace (script (boot page y)) =
    [GetElementById "scroll-top";
     AddEventListener (TElement h) "click" OnClick;
     AddEventListener TWindow "load" ToggleScrollTop;
     AddEventListener TDocument "scroll" ToggleScrollTop] /\
  scrollTop (final (script (boot page y))) = Some h /\
  (exists m, page !! h = Some m /\ m_id m = "scroll-top") /\
  wired h (final (script (boot page y))).
Proof.
  intros Hh. split_and!.
  - by rewrite script_run, Hh.
  - by rewrite script_run, Hh.
  - by rewrite script_binds.
  - by apply find_control_Some.
  - by apply script_wires.
Qed.

Lemma script_wires_page_witness :
  find_control sample_page = Some 1%nat /\
  completion (script (boot sample_page 0)) = Normal tt /\
  trace (script (boot sample_page 0)) =
    [GetElementById "scroll-top";
     AddEventListener (TElement 1%nat) "click" OnClick;
     AddEventListener TWindow "load" ToggleScrollTop;
     AddEventListener TDocument "scroll" ToggleScrollTop] /\
  scrollTop (final (script (boot sample_page 0))) = Some 1%nat /\
  (exists m, sample_page !! 1%nat = Some m /\ m_id m = "scroll-top") /\
  wired 1%nat (final (script (boot sample_page 0))).
Proof.
  split; [reflexivity|]. apply (script_wires_page sample_page 0 1%nat). reflexivity.
Defined.

(** X2. On every page without an element with id "scroll-top", the script
    ends with a TypeError after the lookup alone and leaves the page as it
    found it: nothing is registered and nothing is changed. *)
Theorem script_inert_without_control (page : list Markup) (y : Q) :
  find_control page = None ->
  script (boot page y) = (Throw TypeError, boot page y, [GetElementById "scroll-top"]).
Proof. intros Hnone. by rewrite script_run, Hnone. Qed.

Lemma script_inert_without_control_witness :
  find_control [mkMarkup "main" ["container"]] = None /\
  script (boot [mkMarkup "main" ["container"]] 640) =
    (Throw TypeError, boot [mkMarkup "main" ["container"]] 640,
     [GetElementById "scroll-top"]).
Proof.
  split; [reflexivity|].
  apply (script_inert_without_control [mkMarkup "main" ["container"]] 640).
  reflexivity.
Defined.

(** X3. The script itself never evaluates visibility: on every page and at
    every scroll offset, also one above 100, the class tokens of all
    elements after the script are those of the markup, the offset is
    unchanged, and the script has issued no class list command. The control
    shows its markup state until the first load or scroll event. *)
Theorem script_keeps_classes (page : list Markup) (y : Q) :
  classList <$> elements (final (script (boot page y))) = m_class <$> page /\
  scrollY (final (script (boot page y))) = y /\
  Forall (fun c => changes_classes c = false) (trace (script (boot page y))).
Proof.
  split; [apply script_elements|].
  rewrite script_run. destruct (find_control page); split; by repeat constructor.
Qed.

(** X4. On a page without the control no event of any session invokes any
    callback, and the elements stay as the page was parsed, whatever the
    host delivers. *)
Theorem session_inert_without_control (page : list Markup) (y : Q)
    (evs : list HostEvent) :
  find_control page = None ->
  script_completion (run page y evs) = Throw TypeError /\
  Forall (fun p : HostEvent * list Invocation => p.2 = []) (event_log (run page y evs)) /\
  (forall cb, invocations cb (event_log (run page y evs)) = 0%nat) /\
  elements (end_state (run page y evs)) = parse_element <$> page.
Proof.
  intros Hnone. rewrite run_unfold; cbn [script_completion event_log end_state].
  pose proof (script_unwired page y Hnone) as Hu.
  pose proof (session_unwired evs _ Hu) as Hlog.
  split_and!; [by rewrite script_run, Hnone|done| |].
  - intros cb. by apply invocations_none.
  - destruct (session_retokened evs (final (script (boot page y)))) as (f & _ & Hel).
    rewrite Hel, script_binds, Hnone. by rewrite script_run, Hnone.
Qed.

Lemma session_inert_without_control_witness :
  let page := [mkMarkup "main" ["active"]] in
  let evs := [Load; Scroll 150; Click 0%nat; Scroll 20] in
  find_control page = None /\
  script_completion (run page 0 evs) = Throw TypeError /\
  Forall (fun p : HostEvent * list Invocation => p.2 = []) (event_log (run page 0 evs)) /\
  (forall cb, invocations cb (event_log (run page 0 evs)) = 0%nat) /\
  elements (end_state (run page 0 evs)) = parse_element <$> page.
Proof.
  intros page evs. split; [reflexivity|].
  apply (session_inert_without_control page 0 evs). reflexivity.
Defined.

(** X5. On a page with the control, as soon as a session holds one load or
    scroll event, the control carries "active" at the end of the session
    exactly when the final scroll offset is above 100, whatever the markup
    said, whatever the earlier offsets were and however many clicks came
    in between. *)
Theorem run_synced (page : list Markup) (y : Q) (h : handle) (evs : list HostEvent) :
  find_control page = Some h ->
  existsb triggers_toggle evs = true ->
  synced h (end_state (run page y evs)).
Proof.
  intros Hh Hex. rewrite run_unfold; cbn [end_state].
  apply session_synced; [by apply script_wires|by rewrite script_binds| |by right].
  destruct (find_control_Some page h Hh) as (m & Hm & _).
  rewrite script_run, Hh. unfold final; cbn [fst snd elements].
  rewrite list_lookup_alter_eq, list_lookup_fmap, Hm. by eexists.
Qed.

Lemma run_synced_witness :
  let evs := [Scroll 150; Click 1%nat; Scroll 100; Click 1%nat] in
  find_control sample_page = Some 1%nat /\
  existsb triggers_toggle evs = true /\
  synced 1%nat (end_state (run sample_page 640 evs)).
Proof.
  intros evs. split; [reflexivity|]. split; [reflexivity|].
  apply (run_synced sample_page 640 1%nat evs); reflexivity.
Defined.

(** X6. In every run, on every page and for every sequence of host events,
    the class tokens change at most on the control, and there only in
    "active": every other element ends with the class tokens of its markup,
    and the control with its other tokens in their order. Without the
    control no class token changes at all. *)
Theorem run_touches_only_active (page : list Markup) (y : Q) (evs : list HostEvent) :
  exists f : list string -> list string,
    (forall l, other_tokens (f l) = other_tokens l) /\
    classList <$> elements (end_state (run page y evs)) =
      match find_control page with
      | Some h => alter f h (m_class <$> page)
      | None => m_class <$> page
      end.
Proof.
  rewrite run_unfold; cbn [end_state].
  destruct (session_retokened evs (final (script (boot page y)))) as (f & Hf & Hel).
  exists f. split; [done|]. rewrite Hel, script_binds.
  destruct (find_control page) as [h|]; [|apply script_elements].
  rewrite <- (script_elements page y). apply list_fmap_alter.
  apply Forall_forall. by intros [].
Qed.



(** X8. Handling events never adds or removes a listener: from every
    state and for every sequence of host events, the listeners of the
    window, of the document and of every element after the session are
    those before it. *)
Theorem session_keeps_listeners (st : State) (evs : list HostEvent) (t : Target) :
  listeners_of t (session evs st).1 = listeners_of t st.
Proof.
  destruct (session_stable evs st) as (Hst & _).
  by apply stable_listeners_of.
Qed.

(** X9. No feedback from scrolling: in a run with the control on the page,
    no load event and no scroll event ever issues a [scrollTo], wherever
    the offset stands and whatever came before; each of them runs
    [toggleScrollTop] alone, with one read of the offset and one class list
    command on the control. *)
Theorem scroll_events_never_scroll (page : list Markup) (y : Q) (h : handle)
    (evs : list HostEvent) :
  find_control page = Some h ->
  Forall (fun p : HostEvent * list Invocation =>
            triggers_toggle p.1 && issues_scroll p.2 = false /\
            (if triggers_toggle p.1
             then exists c, p.2 = [(ToggleScrollTop, [GetScrollY; c])] /\
                            changes_classes c = true
             else True))
    (event_log (run page y evs)).
Proof.
  intros Hh. rewrite run_unfold; cbn [event_log].
  apply (session_wired_log
           (fun ev invs =>
              triggers_toggle ev && issues_scroll invs = false /\
              (if triggers_toggle ev
               then exists c, invs = [(ToggleScrollTop, [GetScrollY; c])] /\
                              changes_classes c = true
               else True)) h);
    [|by apply script_wires|by rewrite script_binds].
  intros st ev Hw Hs. destruct (triggers_toggle ev) eqn:Hev; [|done].
  rewrite (dispatch_wired_toggle h ev st Hw Hs Hev). cbn [snd andb].
  unfold issues_scroll; cbn.
  destruct (js_gt _ 100); (split; [done|]); by eexists.
Qed.

Lemma scroll_events_never_scroll_witness :
  let evs := [Load; Scroll 150; Click 1%nat; Scroll 30] in
  find_control sample_page = Some 1%nat /\
  Forall (fun p : HostEvent * list Invocation =>
            triggers_toggle p.1 && issues_scroll p.2 = false /\
            (if triggers_toggle p.1
             then exists c, p.2 = [(ToggleScrollTop, [GetScrollY; c])] /\
                            changes_classes c = true
             else True))
    (event_log (run sample_page 0 evs)).
Proof.
  intros evs. split; [reflexivity|].
  apply (scroll_events_never_scroll sample_page 0 1%nat evs). reflexivity.
Defined.

Lemma wiring_with_control_witness :
  let evs := [Load; Scroll 150; Click 1%nat; ClickAt 2%nat [1%nat]; Scroll 30;
              Click 0%nat] in
  find_control icon_page = Some 1%nat /\
  script_completion (run icon_page 0 evs) = Normal tt /\
  fst <$> event_log (run icon_page 0 evs) = evs /\
  Forall (fun p : HostEvent * list Invocation =>
            toggles p.2 = if triggers_toggle p.1 then 1%nat else 0%nat)
    (event_log (run icon_page 0 evs)) /\
  invocations ToggleScrollTop (event_log (run icon_page 0 evs))
    = length (filter triggers_toggle evs).
Proof.
  intros evs. split; [reflexivity|].
  apply (wiring_with_control icon_page 0 1%nat evs). reflexivity.
Defined.

(** X11. In a run with the control on the page, whatever came before, a
    click on an element inside the control bubbles to it: when the control
    is among the ancestors of the clicked element (on a path that holds no
    element twice), the click listener runs exactly once and nothing else
    runs, the event comes back default-prevented and the state is as
    before the click. *)
Theorem click_inside_control (page : list Markup) (y : Q) (h : handle)
    (evs : list HostEvent) (i : handle) (anc : list handle) :
  find_control page = Some h ->
  NoDup (i :: anc) ->
  h ∈ anc ->
  dispatch (ClickAt i anc) (end_state (run page y evs)) =
    (prevented_click, end_state (run page y evs),
     [(OnClick, [PreventDefault; ScrollTo 0 "smooth"])]).
Proof.
  intros Hh Hnd Hin. rewrite run_unfold; cbn [end_state].
  destruct (session_wired h evs _ (script_wires page y h Hh)) as (Hw & _).
  unfold dispatch. rewrite (callbacks_wired h _ _ Hw).
  cbn [host_update wired_callbacks].
  rewrite (wired_callbacks_once h (i :: anc)); [done|done|].
  by apply elem_of_cons; right.
Qed.

Lemma click_inside_control_witness :
  let evs := [Load; Scroll 150] in
  find_control icon_page = Some 1%nat /\
  NoDup [2%nat; 1%nat] /\
  1%nat ∈ [1%nat] /\
  dispatch (ClickAt 2%nat [1%nat]) (end_state (run icon_page 0 evs)) =
    (prevented_click, end_state (run icon_page 0 evs),
     [(OnClick, [PreventDefault; ScrollTo 0 "smooth"])]).
Proof.
  intros evs.
  assert (NoDup [2%nat; 1%nat]) as Hnd by (apply (bool_decide_unpack _); reflexivity).
  assert (1%nat ∈ [1%nat]) as Hin by (apply (bool_decide_unpack _); reflexivity).
  split; [reflexivity|]. split; [exact Hnd|]. split; [exact Hin|].
  apply (click_inside_control icon_page 0 1%nat evs 2%nat [1%nat]);
    [reflexivity|exact Hnd|exact Hin].
Defined.
